(** * Parameter containers of [@protorians/parameters]

    A shallow embedding of [source/supports/dynamic.ts] (the reactive
    key-value store [DynamicParameter]) and of [source/supports/static.ts]
    (the value set [StaticParameter]), with the properties of both that the
    specification states. *)

From stdpp Require Import gmap strings list fin_maps.

Open Scope Z_scope.

(** ** JavaScript values, as far as the containers look at them

    The containers never compute with the values they hold; they only test
    them for truthiness ([||], [if (callback)]) and compare them for identity
    (members of a [Set]).  Numbers are the integer-valued ones plus [NaN];
    objects are references. *)

Inductive Value : Type :=
  | VUndefined
  | VNull
  | VBool (b : bool)
  | VNum (z : Z)
  | VNaN
  | VStr (s : string)
  | VObj (ref : positive).

#[global] Instance Value_eq_dec : EqDecision Value.
Proof. solve_decision. Defined.

(** ToBoolean: [undefined], [null], [false], [0], [NaN] and the empty string
    are falsy, everything else is truthy. *)
Definition truthy (v : Value) : bool :=
  match v with
  | VUndefined | VNull | VNaN => false
  | VBool b => b
  | VNum z => negb (z =? 0)
  | VStr s => negb (String.eqb s "")
  | VObj _ => true
  end.

(** [a || b] *)
Definition js_or (a b : Value) : Value := if truthy a then a else b.

(** A listener is a function object; the containers only store it, compare it
    by reference (members of a [Set]) and call it. *)
Inductive IParameterCallable : Type := Callable (id : nat).

#[global] Instance IParameterCallable_eq_dec : EqDecision IParameterCallable.
Proof. solve_decision. Defined.

(** Property keys: strings and symbols. *)
Inductive Key : Type :=
  | KStr (s : string)
  | KSym (id : positive).

#[global] Instance Key_eq_dec : EqDecision Key.
Proof. solve_decision. Defined.

Definition Key_to_sum (k : Key) : string + positive :=
  match k with KStr s => inl s | KSym i => inr i end.

Definition Key_of_sum (x : string + positive) : Key :=
  match x with inl s => KStr s | inr i => KSym i end.

#[global] Instance Key_countable : Countable Key.
Proof.
  apply (inj_countable' Key_to_sum Key_of_sum). by intros [s|i].
Defined.

(** [Set.prototype.add] on an insertion-ordered set: a member already present
    keeps its place, a new one goes last. *)
Definition Set_add {A} `{EqDecision A} (x : A) (l : list A) : list A :=
  if decide (x ∈ l) then l else l ++ [x].

(** ** The reactive key-value store, [source/supports/dynamic.ts] *)

Module Dynamic.

(** [IParameter<V>]: an absent [defaultValue] reads as [undefined], an absent
    [callback] as [None]. *)
Record IParameter : Type := mkParameter {
  value : Value;
  defaultValue : Value;
  callback : option IParameterCallable;
}.

#[global] Instance IParameter_eq_dec : EqDecision IParameter.
Proof. solve_decision. Defined.

(** One call [callable(payload)] made by [dispatch]. *)
Definition Invocation : Type := IParameterCallable * Value.

(** The instance: its three fields, and [calls], the listener calls it has
    made so far, oldest first.  A listener's body is the caller's code; what
    the store does is call it, which is what [calls] records.  Listeners are
    taken to leave the instance alone: a body that calls back into the store
    it listens to is not covered. *)
Record DynamicParameter : Type := mkDynamic {
  initial : list (Key * IParameter);
  stack : gmap Key IParameter;
  signal : gmap Key (list IParameterCallable);
  calls : list Invocation;
}.

Definition with_stack (s : DynamicParameter) (m : gmap Key IParameter) :=
  mkDynamic (initial s) m (signal s) (calls s).

Definition with_signal (s : DynamicParameter)
    (m : gmap Key (list IParameterCallable)) :=
  mkDynamic (initial s) (stack s) m (calls s).

Definition with_calls (s : DynamicParameter) (l : list Invocation) :=
  mkDynamic (initial s) (stack s) (signal s) l.

(** [Object.entries(o)]: the string-keyed own properties, in property
    order; symbol-keyed ones are left out. *)
Definition Object_entries {A} (o : list (Key * A)) : list (string * A) :=
  omap (λ kv, match kv.1 with KStr s => Some (s, kv.2) | KSym _ => None end) o.

(** [o[key] = v] on an object created by [{}]: an own data property, except
    that ["__proto__"] reaches the accessor inherited from
    [Object.prototype] and leaves the own properties as they are. *)
Definition Object_assign (o : gmap Key Value) (key : Key) (v : Value)
    : gmap Key Value :=
  if decide (key = KStr "__proto__") then o else <[key:=v]> o.

(** The listeners registered for [key], in registration order. *)
Definition listeners (s : DynamicParameter) (key : Key)
    : list IParameterCallable :=
  default [] (signal s !! key).

Definition get (s : DynamicParameter) (key : Key) : Value :=
  match stack s !! key with
  | Some data => js_or (js_or (value data) (defaultValue data)) VUndefined
  | None => VUndefined
  end.

Definition has (s : DynamicParameter) (key : Key) : bool :=
  bool_decide (is_Some (stack s !! key)).

Definition listen (s : DynamicParameter) (key : Key)
    (cb : IParameterCallable) : DynamicParameter :=
  let set := default [] (signal s !! key) in
  with_signal s (<[key := Set_add cb set]> (signal s)).

(** The loop runs over every entry of [signal] and keeps the ones whose key
    is [key] ([==], which on strings and symbols is identity); each listener
    of such an entry is called with [get(key)]. *)
Definition dispatch (s : DynamicParameter) (key : Key) : DynamicParameter :=
  with_calls s
    (map_fold
       (λ index set done,
          if decide (key = index)
          then done ++ ((λ callable, (callable, get s key)) <$> set)
          else done)
       (calls s) (signal s)).

(** An omitted [defaultValue] is [VUndefined], an omitted [callback] is
    [None]. *)
Definition set (s : DynamicParameter) (key : Key) (v dflt : Value)
    (cb : option IParameterCallable) : DynamicParameter :=
  let data := mkParameter v (js_or dflt v) cb in
  let s1 := with_stack s (<[key := data]> (stack s)) in
  let s2 := match cb with Some f => listen s1 key f | None => s1 end in
  dispatch s2 key.

Definition update (s : DynamicParameter) (key : Key) (v : Value)
    : DynamicParameter :=
  if has s key then set s key v VUndefined None else s.

Definition remove (s : DynamicParameter) (key : Key) : DynamicParameter :=
  with_stack s (delete key (stack s)).

Definition clear (s : DynamicParameter) : DynamicParameter :=
  with_stack s ∅.

(** The loop of [initialize], over the pairs [[key, data]] still to come. *)
Definition replay (s : DynamicParameter) (l : list (string * IParameter))
    : DynamicParameter :=
  foldl (λ acc kd, set acc (KStr kd.1) (value kd.2) (defaultValue kd.2)
                       (callback kd.2))
        s l.

Definition initialize (s : DynamicParameter) : DynamicParameter :=
  replay s (Object_entries (initial s)).

Definition reset (s : DynamicParameter) : DynamicParameter :=
  initialize (clear s).

(** [new DynamicParameter(initial)] *)
Definition new (init : list (Key * IParameter)) : DynamicParameter :=
  initialize (mkDynamic init ∅ ∅ []).

Definition entries (s : DynamicParameter) : gmap Key Value :=
  map_fold (λ key data accumulate, Object_assign accumulate key (value data))
           ∅ (stack s).

(** The argument [{...this.entries}] that [clone] hands to the constructor:
    the spread copies the own properties of [entries]. *)
Definition clone_argument (s : DynamicParameter) : gmap Key Value :=
  entries s.

(** [{...this.initial}], the argument of [cloneOriginal]. *)
Definition cloneOriginal (s : DynamicParameter) : DynamicParameter :=
  new (initial s).

(** What [stack] holds once the pairs [l] have been replayed over [m]: the
    record that [set] writes for each of them, later pairs over earlier. *)
Definition seeded (m : gmap Key IParameter) (l : list (string * IParameter))
    : gmap Key IParameter :=
  foldl (λ acc kd,
           <[KStr kd.1 := mkParameter (value kd.2)
                            (js_or (defaultValue kd.2) (value kd.2))
                            (callback kd.2)]> acc)
        m l.

(** The calls made on the way from state [s] to the later state [s']. *)
Definition fired (s s' : DynamicParameter) : list Invocation :=
  drop (length (calls s)) (calls s').

(** Every member of [signal] is a [Set]: no listener occurs twice in it. *)
Definition signal_wf (s : DynamicParameter) : Prop :=
  map_Forall (λ _ set, NoDup set) (signal s).

(** The public operations that change an instance, for sequences of calls. *)
Inductive Op : Type :=
  | OSet (key : Key) (v dflt : Value) (cb : option IParameterCallable)
  | OUpdate (key : Key) (v : Value)
  | ORemove (key : Key)
  | OClear
  | OReset
  | OListen (key : Key) (cb : IParameterCallable)
  | ODispatch (key : Key).

Definition step (s : DynamicParameter) (op : Op) : DynamicParameter :=
  match op with
  | OSet key v dflt cb => set s key v dflt cb
  | OUpdate key v => update s key v
  | ORemove key => remove s key
  | OClear => clear s
  | OReset => reset s
  | OListen key cb => listen s key cb
  | ODispatch key => dispatch s key
  end.

Definition run (s : DynamicParameter) (ops : list Op) : DynamicParameter :=
  foldl step s ops.

(** The states an instance can be in: built by the constructor, then changed
    through the public operations. *)
Definition reachable (s : DynamicParameter) : Prop :=
  ∃ init ops, s = run (new init) ops.

(** Operations that register no listener and ask for no dispatch of their
    own: [set] without a callback, [update], [remove], [clear]. *)
Definition quiet (op : Op) : bool :=
  match op with
  | OSet _ _ _ None | OUpdate _ _ | ORemove _ | OClear => true
  | _ => false
  end.

(** An initial definition none of whose records declares a callback. *)
Definition no_callback (init : list (Key * IParameter)) : bool :=
  forallb (λ kd, bool_decide (callback kd.2 = None)) init.

(** What [get] gives for a key right after [set] has written the record of
    the definition [data] for it. *)
Definition resolved (data : IParameter) : Value :=
  if truthy (value data) then value data
  else if truthy (defaultValue data) then defaultValue data
  else VUndefined.

(** Every record of [stack] has a truthy [defaultValue], or one that is its
    [value]. *)
Definition stack_wf (s : DynamicParameter) : Prop :=
  map_Forall (λ _ data, truthy (defaultValue data) = true
                        ∨ defaultValue data = value data) (stack s).

End Dynamic.

(** ** The value set, [source/supports/static.ts] *)

Module Static.

(** [stack] is a [Set]: its members in insertion order, none twice. *)
Record StaticParameter : Type := mkStatic {
  initial : list Value;
  stack : list Value;
}.

Definition add (s : StaticParameter) (v : Value) : StaticParameter :=
  mkStatic (initial s) (Set_add v (stack s)).

Definition has (s : StaticParameter) (key : Value) : bool :=
  bool_decide (key ∈ stack s).

Definition remove (s : StaticParameter) (key : Value) : StaticParameter :=
  mkStatic (initial s) (filter (λ v, v ≠ key) (stack s)).

Definition clear (s : StaticParameter) : StaticParameter :=
  mkStatic (initial s) [].

Definition initialize (s : StaticParameter) : StaticParameter :=
  foldl add s (initial s).

Definition reset (s : StaticParameter) : StaticParameter :=
  initialize (clear s).

(** [new StaticParameter(initial)] *)
Definition new (init : list Value) : StaticParameter :=
  initialize (mkStatic init []).

Definition entries (s : StaticParameter) : list Value := stack s.

(** [[...this.stack.values()][0] || undefined]; reading index 0 of an empty
    array gives [undefined]. *)
Definition value (s : StaticParameter) : Value :=
  js_or (default VUndefined (entries s !! 0%nat)) VUndefined.

Definition clone (s : StaticParameter) : StaticParameter :=
  new (initial s).

(** The public operations that change a value set, for sequences of
    calls. *)
Inductive Op : Type :=
  | OAdd (v : Value)
  | ORemove (key : Value)
  | OClear
  | OReset.

Definition step (s : StaticParameter) (op : Op) : StaticParameter :=
  match op with
  | OAdd v => add s v
  | ORemove key => remove s key
  | OClear => clear s
  | OReset => reset s
  end.

Definition run (s : StaticParameter) (ops : list Op) : StaticParameter :=
  foldl step s ops.

End Static.

(** ** Properties of the insertion-ordered sets *)

Lemma Set_add_elem {A} `{EqDecision A} (x y : A) (l : list A) :
  y ∈ Set_add x l ↔ y = x ∨ y ∈ l.
Proof.
  unfold Set_add. case_decide.
  - split; [by right | by intros [->|?]].
  - rewrite elem_of_app, list_elem_of_singleton. tauto.
Qed.

Lemma Set_add_NoDup {A} `{EqDecision A} (x : A) (l : list A) :
  NoDup l → NoDup (Set_add x l).
Proof.
  intros Hl. unfold Set_add. case_decide; [done|].
  apply NoDup_app. split_and!; [done | | apply NoDup_singleton].
  intros y Hy ->%list_elem_of_singleton. done.
Qed.

(** ** Properties of the reactive key-value store *)

Section DynamicFacts.
Import Dynamic.

Implicit Types (s : DynamicParameter) (key k : Key) (v dflt : Value).
Implicit Types (cb : option IParameterCallable) (c : IParameterCallable).

(** [get] reads [stack] only. *)
Lemma get_stack s s' k : stack s = stack s' → get s k = get s' k.
Proof. unfold get. by intros ->. Qed.

(** Keys of a [Map] are unique, so the loop of [dispatch] meets at most one
    entry for [key]: the calls it makes are those of [listeners s key], in
    registration order, each with [get s key]. *)
Lemma dispatch_calls s k :
  calls (dispatch s k) = calls s ++ ((λ c, (c, get s k)) <$> listeners s k).
Proof.
  unfold dispatch, listeners. simpl.
  apply (map_fold_weak_ind
           (λ r m, r = calls s ++ ((λ c, (c, get s k)) <$> default [] (m !! k)))).
  - rewrite lookup_empty. simpl. by rewrite app_nil_r.
  - intros i x m r Hi ->. case_decide as Hk.
    + subst i. rewrite Hi, lookup_insert_eq. simpl. by rewrite app_nil_r.
    + by rewrite lookup_insert_ne.
Qed.

Lemma dispatch_stack s k : stack (dispatch s k) = stack s.
Proof. reflexivity. Qed.

Lemma dispatch_signal s k : signal (dispatch s k) = signal s.
Proof. reflexivity. Qed.

Lemma dispatch_initial s k : initial (dispatch s k) = initial s.
Proof. reflexivity. Qed.

Lemma set_stack s k v dflt cb :
  stack (set s k v dflt cb) = <[k := mkParameter v (js_or dflt v) cb]> (stack s).
Proof. unfold set. by destruct cb. Qed.

Lemma set_initial s k v dflt cb : initial (set s k v dflt cb) = initial s.
Proof. unfold set. by destruct cb. Qed.

Lemma set_signal s k v dflt cb :
  signal (set s k v dflt cb) =
  match cb with
  | Some c => <[k := Set_add c (listeners s k)]> (signal s)
  | None => signal s
  end.
Proof. unfold set. by destruct cb. Qed.

Lemma set_listeners s k v dflt cb :
  listeners (set s k v dflt cb) k =
  match cb with Some c => Set_add c (listeners s k) | None => listeners s k end.
Proof.
  unfold listeners at 1. rewrite set_signal. destruct cb; [|done].
  by rewrite lookup_insert_eq.
Qed.

Lemma set_listeners_ne s k k' v dflt cb :
  k ≠ k' → listeners (set s k v dflt cb) k' = listeners s k'.
Proof.
  intros Hne. unfold listeners at 1. rewrite set_signal. destruct cb; [|done].
  by rewrite lookup_insert_ne.
Qed.

Lemma set_calls s k v dflt cb :
  calls (set s k v dflt cb) =
  calls s ++ ((λ c, (c, get (set s k v dflt cb) k)) <$>
              listeners (set s k v dflt cb) k).
Proof.
  destruct cb; unfold set; rewrite dispatch_calls; reflexivity.
Qed.

Lemma fired_set s k v dflt cb :
  fired s (set s k v dflt cb) =
  (λ c, (c, get (set s k v dflt cb) k)) <$> listeners (set s k v dflt cb) k.
Proof. unfold fired. rewrite set_calls. apply drop_app_length. Qed.

Lemma filter_callee_absent (l : list IParameterCallable) c (x : Value) :
  c ∉ l → filter (λ i : Invocation, i.1 = c) ((λ c', (c', x)) <$> l) = [].
Proof.
  induction l as [|c' l IH]; [done|].
  intros [Hne Hnotin]%not_elem_of_cons. simpl.
  rewrite filter_cons_False; [by apply IH|]. simpl. congruence.
Qed.

(** A listener of a duplicate-free set is called once by a pass over it. *)
Lemma filter_callee (l : list IParameterCallable) c (x : Value) :
  NoDup l → c ∈ l →
  filter (λ i : Invocation, i.1 = c) ((λ c', (c', x)) <$> l) = [(c, x)].
Proof.
  induction 1 as [|c' l Hnotin Hnd IH]; [by intros ?%elem_of_nil|].
  intros [->|Hin]%elem_of_cons; simpl.
  - rewrite filter_cons_True by done. f_equal.
    by apply filter_callee_absent.
  - rewrite filter_cons_False; [by apply IH|].
    simpl. by intros ->.
Qed.

Lemma signal_wf_listeners s k : signal_wf s → NoDup (listeners s k).
Proof.
  intros Hwf. unfold listeners. destruct (signal s !! k) as [l|] eqn:Hl; simpl.
  - exact (Hwf k l Hl).
  - constructor.
Qed.

(** *** The loop of [initialize] *)

Lemma replay_initial s l : initial (replay s l) = initial s.
Proof.
  revert s. induction l as [|kd l IH]; intros s; [done|].
  simpl. unfold replay in IH. by rewrite IH, set_initial.
Qed.

Lemma replay_stack s l : stack (replay s l) = seeded (stack s) l.
Proof.
  revert s. induction l as [|kd l IH]; intros s; [done|].
  simpl. unfold replay in IH. by rewrite IH, set_stack.
Qed.

Lemma seeded_symbol m l y : seeded m l !! KSym y = m !! KSym y.
Proof.
  revert m. induction l as [|kd l IH]; intros m; [done|].
  simpl. unfold seeded in IH. rewrite IH. by rewrite lookup_insert_ne.
Qed.

Lemma new_initial init : initial (new init) = init.
Proof. unfold new, initialize. by rewrite replay_initial. Qed.

Lemma new_stack init : stack (new init) = seeded ∅ (Object_entries init).
Proof. unfold new, initialize. by rewrite replay_stack. Qed.

Lemma reset_stack s : stack (reset s) = seeded ∅ (Object_entries (initial s)).
Proof. unfold reset, initialize. by rewrite replay_stack. Qed.

Lemma step_initial s op : initial (step s op) = initial s.
Proof.
  destruct op; simpl; try done.
  - apply set_initial.
  - unfold update. destruct (has s key); [apply set_initial | done].
  - unfold reset, initialize. by rewrite replay_initial.
Qed.

Lemma run_initial s ops : initial (run s ops) = initial s.
Proof.
  revert s. induction ops as [|op ops IH]; intros s; [done|].
  simpl. unfold run in IH. by rewrite IH, step_initial.
Qed.

(** *** The listener registry only grows *)

Lemma listen_listeners s key c k :
  listeners (listen s key c) k =
  if decide (key = k) then Set_add c (listeners s k) else listeners s k.
Proof.
  unfold listeners, listen. simpl. case_decide as Hk.
  - subst. by rewrite lookup_insert_eq.
  - by rewrite lookup_insert_ne.
Qed.

Lemma set_listeners_mono s key v dflt cb k c :
  c ∈ listeners s k → c ∈ listeners (set s key v dflt cb) k.
Proof.
  intros Hc. destruct (decide (key = k)) as [->|Hne].
  - rewrite set_listeners. destruct cb; [|done].
    apply Set_add_elem. by right.
  - by rewrite set_listeners_ne.
Qed.

Lemma replay_listeners_mono s l k c :
  c ∈ listeners s k → c ∈ listeners (replay s l) k.
Proof.
  revert s. induction l as [|kd l IH]; intros s Hc; [done|].
  simpl. apply IH. by apply set_listeners_mono.
Qed.

Lemma step_listeners_mono s op k c :
  c ∈ listeners s k → c ∈ listeners (step s op) k.
Proof.
  intros Hc. destruct op; simpl; try done.
  - by apply set_listeners_mono.
  - unfold update. destruct (has s key); [by apply set_listeners_mono | done].
  - unfold reset, initialize. by apply replay_listeners_mono.
  - rewrite listen_listeners. case_decide; [|done].
    apply Set_add_elem. by right.
Qed.

Lemma run_listeners_mono s ops k c :
  c ∈ listeners s k → c ∈ listeners (run s ops) k.
Proof.
  revert s. induction ops as [|op ops IH]; intros s Hc; [done|].
  simpl. apply IH. by apply step_listeners_mono.
Qed.

(** *** The members of [signal] stay duplicate-free *)

Lemma listen_signal_wf s key c : signal_wf s → signal_wf (listen s key c).
Proof.
  intros Hwf. unfold signal_wf, listen. simpl.
  apply map_Forall_insert_2; [|done].
  apply Set_add_NoDup. fold (listeners s key). by apply signal_wf_listeners.
Qed.

Lemma set_signal_wf s key v dflt cb :
  signal_wf s → signal_wf (set s key v dflt cb).
Proof.
  intros Hwf. unfold signal_wf. rewrite set_signal. destruct cb as [c|]; [|done].
  exact (listen_signal_wf s key c Hwf).
Qed.

Lemma replay_signal_wf s l : signal_wf s → signal_wf (replay s l).
Proof.
  revert s. induction l as [|kd l IH]; intros s Hwf; [done|].
  simpl. apply IH. by apply set_signal_wf.
Qed.

Lemma step_signal_wf s op : signal_wf s → signal_wf (step s op).
Proof.
  intros Hwf. destruct op; simpl; try done.
  - by apply set_signal_wf.
  - unfold update. destruct (has s key); [by apply set_signal_wf | done].
  - unfold reset, initialize. by apply replay_signal_wf.
  - by apply listen_signal_wf.
Qed.

Lemma run_signal_wf s ops : signal_wf s → signal_wf (run s ops).
Proof.
  revert s. induction ops as [|op ops IH]; intros s Hwf; [done|].
  simpl. apply IH. by apply step_signal_wf.
Qed.

Lemma new_signal_wf init : signal_wf (new init).
Proof.
  unfold new, initialize. apply replay_signal_wf.
  unfold signal_wf. simpl. apply map_Forall_empty.
Qed.

(** Every state an instance can be in has duplicate-free listener sets. *)
Lemma reachable_signal_wf s : reachable s → signal_wf s.
Proof. intros (init & ops & ->). apply run_signal_wf, new_signal_wf. Qed.

(** *** The scenario of the README

    [{theme: {value: "light", defaultValue: "light"}, page: {value: 1}}] *)

Example scenario_get :
  let conf := new [(KStr "theme", mkParameter (VStr "light") (VStr "light") None);
                   (KStr "page", mkParameter (VNum 1) VUndefined None)] in
  get conf (KStr "theme") = VStr "light"
  ∧ get conf (KStr "page") = VNum 1
  ∧ get (set conf (KStr "theme") (VStr "dark") VUndefined None) (KStr "theme")
    = VStr "dark"
  ∧ has (update conf (KStr "missing") (VStr "x")) (KStr "missing") = false.
Proof. by vm_compute. Qed.

Example scenario_callback_fires_at_construction :
  calls (new [(KStr "page", mkParameter (VNum 1) VUndefined (Some (Callable 7)))])
  = [(Callable 7, VNum 1)].
Proof. by vm_compute. Qed.

(** *** Reading *)

(** C1: [get(k)] is the stored [value] when that is truthy, otherwise the
    stored [defaultValue] when that is truthy, otherwise [undefined]; for a
    key that [stack] does not hold, [get(k)] is [undefined] and [has(k)] is
    [false]. *)
Theorem get_resolves s k :
  match stack s !! k with
  | Some data =>
      get s k = (if truthy (value data) then value data
                 else if truthy (defaultValue data) then defaultValue data
                 else VUndefined)
  | None => get s k = VUndefined ∧ has s k = false
  end.
Proof.
  unfold get, has. destruct (stack s !! k) as [data|] eqn:Hk.
  - unfold js_or. destruct (truthy (value data)) eqn:Hv.
    + by rewrite Hv.
    + by destruct (truthy (defaultValue data)) eqn:Hd; rewrite ?Hd.
  - split; [done|]. apply bool_decide_eq_false. by intros [? ?].
Qed.

(** C9: whatever the state and the key, [get] gives [undefined] or a truthy
    value; [0], the empty string, [false] and [null] are never read through
    it. *)
Theorem get_truthy_or_undefined s k :
  (get s k = VUndefined ∨ truthy (get s k) = true)
  ∧ get s k ≠ VNum 0 ∧ get s k ≠ VStr "" ∧ get s k ≠ VBool false
  ∧ get s k ≠ VNull.
Proof.
  assert (get s k = VUndefined ∨ truthy (get s k) = true) as H.
  { unfold get. destruct (stack s !! k) as [data|]; [|by left].
    unfold js_or. destruct (truthy (value data)) eqn:Hv.
    - rewrite Hv. by right.
    - destruct (truthy (defaultValue data)) eqn:Hd; rewrite ?Hd; auto. }
  split; [done|].
  destruct H as [->|H]; [done|].
  repeat split; intros Heq; by rewrite Heq in H.
Qed.

(** *** Writing *)

(** C2: when the [defaultValue] given to [set(k, v)] is not truthy (as when
    it is left out), the record written for [k] has [v] as its default, so
    [get(k)] is [v] if [v] is truthy and [undefined] if not; after
    [set("page", 0)] with no default, [get("page")] is [undefined], not
    [0]. *)
Theorem set_default_is_value s k v dflt cb :
  truthy dflt = false →
  stack (set s k v dflt cb) !! k = Some (mkParameter v v cb)
  ∧ get (set s k v dflt cb) k = (if truthy v then v else VUndefined)
  ∧ get (set s (KStr "page") (VNum 0) VUndefined cb) (KStr "page") = VUndefined
  ∧ get (set s (KStr "page") (VNum 0) VUndefined cb) (KStr "page") ≠ VNum 0.
Proof.
  intros Hd.
  assert (∀ s' k' v' d', truthy d' = false →
            stack (set s' k' v' d' cb) !! k' = Some (mkParameter v' v' cb)) as Hst.
  { intros s' k' v' d' Hd'. rewrite set_stack, lookup_insert_eq.
    unfold js_or. by rewrite Hd'. }
  assert (∀ s' k' v' d', truthy d' = false →
            get (set s' k' v' d' cb) k' = if truthy v' then v' else VUndefined)
    as Hget.
  { intros s' k' v' d' Hd'. unfold get. rewrite (Hst _ _ _ _ Hd'). simpl.
    unfold js_or. destruct (truthy v') eqn:Hv; by rewrite ?Hv. }
  split_and!; [by apply Hst | by apply Hget | by rewrite Hget | by rewrite Hget].
Qed.

Lemma set_default_is_value_witness :
  truthy VUndefined = false
  ∧ stack (set (new []) (KStr "page") (VNum 0) VUndefined None) !! KStr "page"
    = Some (mkParameter (VNum 0) (VNum 0) None)
  ∧ get (set (new []) (KStr "page") (VNum 0) VUndefined None) (KStr "page")
    = VUndefined.
Proof.
  split; [reflexivity|].
  pose proof (set_default_is_value (new []) (KStr "page") (VNum 0) VUndefined
                None eq_refl) as (H1 & H2 & _).
  split; [exact H1 | exact H2].
Defined.

(** C5: for a key that [has] does not find, [update(k, v)] gives the instance
    back as it was: no listener is called, no field changes, and [has(k)] is
    still [false]. *)
Theorem update_absent s k v :
  has s k = false →
  update s k v = s ∧ fired s (update s k v) = [] ∧ has (update s k v) k = false.
Proof.
  intros Hk. unfold update. rewrite Hk. split_and!; [done | | done].
  unfold fired. by rewrite drop_all.
Qed.

Lemma update_absent_witness :
  has (new [(KStr "page", mkParameter (VNum 1) VUndefined None)])
      (KStr "missing") = false
  ∧ update (new [(KStr "page", mkParameter (VNum 1) VUndefined None)])
           (KStr "missing") (VStr "x")
    = new [(KStr "page", mkParameter (VNum 1) VUndefined None)]
  ∧ has (update (new [(KStr "page", mkParameter (VNum 1) VUndefined None)])
                (KStr "missing") (VStr "x")) (KStr "missing") = false.
Proof.
  assert (has (new [(KStr "page", mkParameter (VNum 1) VUndefined None)])
              (KStr "missing") = false) as H by (vm_compute; reflexivity).
  split; [exact H|].
  destruct (update_absent _ (KStr "missing") (VStr "x") H) as (H1 & _ & H3).
  split; [exact H1 | exact H3].
Defined.

(** *** Construction *)

(** C10: construction replays the string-keyed entries of the initial
    definition only: a symbol key under which that definition has an entry
    is not in [stack] afterwards, [has] gives [false] for it and [get] gives
    [undefined]. *)
Theorem symbol_entry_not_replayed init y data :
  (KSym y, data) ∈ init →
  stack (new init) = seeded ∅ (Object_entries init)
  ∧ stack (new init) !! KSym y = None
  ∧ has (new init) (KSym y) = false
  ∧ get (new init) (KSym y) = VUndefined.
Proof.
  intros _.
  assert (stack (new init) !! KSym y = None) as H.
  { by rewrite new_stack, seeded_symbol. }
  split_and!; [apply new_stack | done | |].
  - apply bool_decide_eq_false. rewrite H. by intros [? ?].
  - unfold get. by rewrite H.
Qed.

Lemma symbol_entry_not_replayed_witness :
  (KSym 1, mkParameter (VNum 3) VUndefined None)
    ∈ [(KStr "page", mkParameter (VNum 1) VUndefined None);
       (KSym 1, mkParameter (VNum 3) VUndefined None)]
  ∧ has (new [(KStr "page", mkParameter (VNum 1) VUndefined None);
              (KSym 1, mkParameter (VNum 3) VUndefined None)]) (KSym 1) = false
  ∧ get (new [(KStr "page", mkParameter (VNum 1) VUndefined None);
              (KSym 1, mkParameter (VNum 3) VUndefined None)]) (KSym 1)
    = VUndefined.
Proof.
  assert ((KSym 1, mkParameter (VNum 3) VUndefined None)
            ∈ [(KStr "page", mkParameter (VNum 1) VUndefined None);
               (KSym 1, mkParameter (VNum 3) VUndefined None)]) as Hin.
  { apply list_elem_of_further, list_elem_of_here. }
  split; [exact Hin|].
  destruct (symbol_entry_not_replayed _ _ _ Hin) as (_ & _ & H2 & H3).
  split; [exact H2 | exact H3].
Defined.

(** *** Notification *)

(** C3: [set(k, ...)] ends with the dispatch for [k]: the calls it adds are
    one call per listener registered for [k] when the dispatch starts, in
    registration order, each with the resolved value [get(k)]; those
    listeners are the ones registered before plus the callback handed to
    this very [set].  After [listen(k, c)] then [set(k, v)], [c] is called
    exactly once, with [get(k)]. *)
Theorem set_dispatches s k v dflt cb c :
  signal_wf s →
  calls (set s k v dflt cb) = calls s ++ fired s (set s k v dflt cb)
  ∧ fired s (set s k v dflt cb)
    = (λ f, (f, get (set s k v dflt cb) k)) <$> listeners (set s k v dflt cb) k
  ∧ listeners (set s k v dflt cb) k
    = match cb with
      | Some f => Set_add f (listeners s k)
      | None => listeners s k
      end
  ∧ (∀ f, f ∈ listeners s k ∨ cb = Some f → f ∈ listeners (set s k v dflt cb) k)
  ∧ filter (λ i : Invocation, i.1 = c)
           (fired (listen s k c) (set (listen s k c) k v dflt cb))
    = [(c, get (set (listen s k c) k v dflt cb) k)].
Proof.
  intros Hwf. split_and!.
  - rewrite fired_set. apply set_calls.
  - apply fired_set.
  - apply set_listeners.
  - intros f [Hf | ->].
    + by apply set_listeners_mono.
    + rewrite set_listeners. apply Set_add_elem. by left.
  - rewrite fired_set. apply filter_callee.
    + apply signal_wf_listeners, set_signal_wf, listen_signal_wf, Hwf.
    + apply set_listeners_mono. rewrite listen_listeners, decide_True by done.
      apply Set_add_elem. by left.
Qed.

Lemma set_dispatches_witness :
  signal_wf (new [])
  ∧ fired (listen (new []) (KStr "theme") (Callable 1))
          (set (listen (new []) (KStr "theme") (Callable 1))
               (KStr "theme") (VStr "dark") VUndefined None)
    = [(Callable 1, VStr "dark")]
  ∧ filter (λ i : Invocation, i.1 = Callable 1)
           (fired (listen (new []) (KStr "theme") (Callable 1))
                  (set (listen (new []) (KStr "theme") (Callable 1))
                       (KStr "theme") (VStr "dark") VUndefined None))
    = [(Callable 1,
        get (set (listen (new []) (KStr "theme") (Callable 1))
                 (KStr "theme") (VStr "dark") VUndefined None) (KStr "theme"))].
Proof.
  assert (signal_wf (new [])) as Hwf by apply map_Forall_empty.
  split; [exact Hwf|]. split; [vm_compute; reflexivity|].
  exact (proj2 (proj2 (proj2 (proj2
    (set_dispatches (new []) (KStr "theme") (VStr "dark") VUndefined None
                    (Callable 1) Hwf))))).
Defined.

(** C4: [remove], [clear] and [reset] take no listener out of [signal]: a
    listener registered for [k] is still registered after each of them, and
    after [remove(k)], whatever is done to the instance next, a later
    [set(k, v)] calls it, with [get(k)]. *)
Theorem listeners_survive s k c key ops v dflt cb :
  c ∈ listeners s k →
  signal (remove s key) = signal s
  ∧ signal (clear s) = signal s
  ∧ c ∈ listeners (remove s key) k
  ∧ c ∈ listeners (clear s) k
  ∧ c ∈ listeners (reset s) k
  ∧ (c, get (set (run (remove s k) ops) k v dflt cb) k)
      ∈ fired (run (remove s k) ops) (set (run (remove s k) ops) k v dflt cb).
Proof.
  intros Hc. split_and!; try done.
  - unfold reset, initialize. by apply replay_listeners_mono.
  - rewrite fired_set.
    apply (list_elem_of_fmap_2 (λ f, (f, get _ k))).
    by apply set_listeners_mono, run_listeners_mono.
Qed.

Lemma listeners_survive_witness :
  Callable 1 ∈ listeners (listen (new []) (KStr "theme") (Callable 1))
                         (KStr "theme")
  ∧ (Callable 1, VStr "dark")
      ∈ fired (remove (listen (new []) (KStr "theme") (Callable 1))
                      (KStr "theme"))
              (set (remove (listen (new []) (KStr "theme") (Callable 1))
                           (KStr "theme"))
                   (KStr "theme") (VStr "dark") VUndefined None).
Proof.
  assert (Callable 1 ∈ listeners (listen (new []) (KStr "theme") (Callable 1))
                                 (KStr "theme")) as Hc.
  { vm_compute. apply list_elem_of_here. }
  split; [exact Hc|].
  exact (proj2 (proj2 (proj2 (proj2 (proj2
    (listeners_survive _ (KStr "theme") (Callable 1) (KStr "theme") []
                       (VStr "dark") VUndefined None Hc)))))).
Defined.

(** *** Resetting *)

(** With no listener registered, a [set] without callback calls nobody. *)
Lemma set_quiet s k v dflt :
  signal s = ∅ →
  signal (set s k v dflt None) = ∅ ∧ calls (set s k v dflt None) = calls s.
Proof.
  intros Hs. split; [by rewrite set_signal|].
  rewrite set_calls, set_listeners. unfold listeners.
  rewrite Hs, lookup_empty. simpl. apply app_nil_r.
Qed.

Lemma replay_quiet s l :
  Forall (λ kd, callback kd.2 = None) l → signal s = ∅ →
  signal (replay s l) = ∅ ∧ calls (replay s l) = calls s.
Proof.
  intros Hl. revert s. induction Hl as [|kd l Hkd Hl IH]; intros s Hs; [done|].
  simpl. rewrite Hkd.
  destruct (set_quiet s (KStr kd.1) (value kd.2) (defaultValue kd.2) Hs)
    as [Hs' Hc'].
  destruct (IH _ Hs') as [IH1 IH2]. by rewrite IH1, IH2, Hc'.
Qed.

Lemma Object_entries_no_callback init :
  no_callback init = true →
  Forall (λ kd : string * IParameter, callback kd.2 = None) (Object_entries init).
Proof.
  unfold no_callback, Object_entries. induction init as [|[key data] init IH];
    simpl; [constructor|].
  intros [Hd Hinit]%andb_prop. apply bool_decide_eq_true in Hd.
  destruct key; simpl; [constructor|]; auto.
Qed.

Lemma step_quiet s op :
  quiet op = true → signal s = ∅ →
  signal (step s op) = ∅ ∧ calls (step s op) = calls s.
Proof.
  intros Hq Hs. destruct op as [key v dflt [c|]|key v|key| | | |]; try done; simpl.
  - by apply set_quiet.
  - unfold update. destruct (has s key); [by apply set_quiet | done].
Qed.

Lemma run_quiet s ops :
  forallb quiet ops = true → signal s = ∅ →
  signal (run s ops) = ∅ ∧ calls (run s ops) = calls s.
Proof.
  revert s. induction ops as [|op ops IH]; intros s Hq Hs; [done|].
  simpl in Hq. apply andb_prop in Hq as [Hop Hops].
  destruct (step_quiet s op Hop Hs) as [Hs' Hc'].
  destruct (IH _ Hops Hs') as [IH1 IH2]. simpl.
  by rewrite IH1, IH2, Hc'.
Qed.

Lemma new_quiet init :
  no_callback init = true → signal (new init) = ∅ ∧ calls (new init) = [].
Proof.
  intros Hinit. unfold new, initialize.
  apply (replay_quiet (mkDynamic init ∅ ∅ [])); [|done].
  by apply Object_entries_no_callback.
Qed.

(** [reset] rebuilds [stack] from [initial] alone, and no operation changes
    [initial]: whatever was done to an instance, [reset] gives it the
    [stack] it had when it was constructed. *)
Lemma reset_run_stack init ops :
  stack (reset (run (new init) ops)) = stack (new init).
Proof. by rewrite reset_stack, run_initial, new_initial, new_stack. Qed.

(** C6: take an instance no listener is registered with (its definition
    declares no callback, and it is only changed by [set] without callback,
    [update], [remove] and [clear]).  After any such changes one [reset()]
    gives, for every key (so for every key of the initial definition), the
    resolved value [get(k)] the instance had when it was constructed; and no
    listener has been called. *)
Theorem reset_restores init ops k :
  no_callback init = true →
  forallb quiet ops = true →
  get (reset (run (new init) ops)) k = get (new init) k
  ∧ stack (reset (run (new init) ops)) = stack (new init)
  ∧ calls (reset (run (new init) ops)) = [].
Proof.
  intros Hinit Hops. split_and!.
  - apply get_stack, reset_run_stack.
  - apply reset_run_stack.
  - destruct (new_quiet init Hinit) as [Hs Hc].
    destruct (run_quiet (new init) ops Hops Hs) as [Hs' Hc'].
    unfold reset, initialize.
    destruct (replay_quiet (clear (run (new init) ops))
                (Object_entries (initial (clear (run (new init) ops)))))
      as [_ Hc'']; [| done |].
    + apply Object_entries_no_callback. simpl.
      by rewrite run_initial, new_initial.
    + rewrite Hc''. simpl. by rewrite Hc'.
Qed.

Lemma reset_restores_witness :
  no_callback [(KStr "theme", mkParameter (VStr "light") (VStr "light") None);
               (KStr "page", mkParameter (VNum 0) (VNum 1) None)] = true
  ∧ forallb quiet [OSet (KStr "theme") (VStr "dark") VUndefined None;
                   OUpdate (KStr "page") (VNum 7);
                   ORemove (KStr "theme"); OClear;
                   OSet (KStr "extra") (VNum 2) VUndefined None] = true
  ∧ get (reset (run (new [(KStr "theme",
                            mkParameter (VStr "light") (VStr "light") None);
                           (KStr "page", mkParameter (VNum 0) (VNum 1) None)])
                    [OSet (KStr "theme") (VStr "dark") VUndefined None;
                     OUpdate (KStr "page") (VNum 7);
                     ORemove (KStr "theme"); OClear;
                     OSet (KStr "extra") (VNum 2) VUndefined None]))
        (KStr "page") = VNum 1.
Proof.
  split; [reflexivity|]. split; [reflexivity|].
  rewrite (proj1 (reset_restores
    [(KStr "theme", mkParameter (VStr "light") (VStr "light") None);
     (KStr "page", mkParameter (VNum 0) (VNum 1) None)]
    [OSet (KStr "theme") (VStr "dark") VUndefined None;
     OUpdate (KStr "page") (VNum 7); ORemove (KStr "theme"); OClear;
     OSet (KStr "extra") (VNum 2) VUndefined None]
    (KStr "page") eq_refl eq_refl)).
  vm_compute. reflexivity.
Defined.

(** *** The plain mapping of current values *)

Lemma entries_lookup s k :
  k ≠ KStr "__proto__" → entries s !! k = value <$> stack s !! k.
Proof.
  intros Hk. unfold entries.
  apply (map_fold_weak_ind (λ (r : gmap Key Value) (m : gmap Key IParameter),
                              r !! k = value <$> m !! k)).
  - by rewrite !lookup_empty.
  - intros i data m r Hi Hr. unfold Object_assign.
    destruct (decide (i = k)) as [->|Hne].
    + rewrite decide_False by done. by rewrite !lookup_insert_eq.
    + rewrite (lookup_insert_ne m) by done. rewrite <- Hr.
      case_decide; [done|]. by rewrite lookup_insert_ne.
Qed.

(** The assignment [accumulate["__proto__"] = ...] adds no property. *)
Lemma entries_proto s : entries s !! KStr "__proto__" = None.
Proof.
  unfold entries.
  apply (map_fold_weak_ind (λ (r : gmap Key Value) (m : gmap Key IParameter),
                              r !! KStr "__proto__" = None)); [done|].
  intros i data m r _ Hr. unfold Object_assign.
  case_decide; [done|]. by rewrite lookup_insert_ne.
Qed.

(** C7, as the code has it: [entries] maps every key of [stack], the string
    ["__proto__"] apart, to the [value] field stored for it, as it is, and
    holds no key that [stack] does not hold; that field is the resolved
    value [get(k)] when it is truthy.  [clone] hands this mapping to the
    constructor. *)
Theorem entries_stored_value s k :
  k ≠ KStr "__proto__" →
  entries s !! k = value <$> stack s !! k
  ∧ clone_argument s !! k = value <$> stack s !! k
  ∧ match stack s !! k with
    | Some data =>
        if truthy (value data) then entries s !! k = Some (get s k) else True
    | None => entries s !! k = None
    end.
Proof.
  intros Hk. pose proof (entries_lookup s k Hk) as He.
  split_and!; [done | done |].
  unfold get. destruct (stack s !! k) as [data|]; [|done].
  destruct (truthy (value data)) eqn:Hv; [|done].
  unfold js_or. by rewrite Hv, Hv.
Qed.

Lemma entries_stored_value_witness :
  KStr "page" ≠ KStr "__proto__"
  ∧ entries (set (new []) (KStr "page") (VNum 0) (VNum 5) None) !! KStr "page"
    = Some (VNum 0).
Proof.
  assert (KStr "page" ≠ KStr "__proto__") as Hk by discriminate.
  split; [exact Hk|].
  rewrite (proj1 (entries_stored_value _ _ Hk)). vm_compute. reflexivity.
Defined.

(** C7 as the specification words it fails: after [set("page", 0, 5)] the key
    is in [stack] and resolves to [5], while [entries] holds [0] for it. *)
Lemma entries_not_resolved :
  has (set (new []) (KStr "page") (VNum 0) (VNum 5) None) (KStr "page") = true
  ∧ get (set (new []) (KStr "page") (VNum 0) (VNum 5) None) (KStr "page")
    = VNum 5
  ∧ entries (set (new []) (KStr "page") (VNum 0) (VNum 5) None) !! KStr "page"
    = Some (VNum 0)
  ∧ entries (set (new []) (KStr "page") (VNum 0) (VNum 5) None) !! KStr "page"
    ≠ Some (get (set (new []) (KStr "page") (VNum 0) (VNum 5) None)
                (KStr "page")).
Proof. split_and!; [by vm_compute ..| vm_compute; discriminate]. Qed.

End DynamicFacts.

(** ** Further properties of the reactive key-value store *)

Section DynamicMore.
Import Dynamic.

Implicit Types (s : DynamicParameter) (key k : Key) (v dflt : Value).
Implicit Types (cb : option IParameterCallable) (c : IParameterCallable).

Lemma with_stack_id s : with_stack s (stack s) = s.
Proof. by destruct s. Qed.

Lemma with_calls_id s : with_calls s (calls s) = s.
Proof. by destruct s. Qed.

Lemma has_true s k : has s k = true ↔ is_Some (stack s !! k).
Proof. unfold has. apply bool_decide_eq_true. Qed.

Lemma has_false s k : has s k = false ↔ stack s !! k = None.
Proof.
  unfold has. rewrite bool_decide_eq_false. symmetry. apply eq_None_not_Some.
Qed.

Lemma get_set s k v dflt cb :
  get (set s k v dflt cb) k =
  if truthy v then v else if truthy dflt then dflt else VUndefined.
Proof.
  unfold get. rewrite set_stack, lookup_insert_eq. simpl. unfold js_or.
  destruct (truthy v) eqn:Hv; [by rewrite Hv|].
  destruct (truthy dflt) eqn:Hd; [by rewrite Hd|]. by rewrite Hv.
Qed.

Lemma get_set_ne s k k' v dflt cb :
  k ≠ k' → get (set s k v dflt cb) k' = get s k'.
Proof. intros Hne. unfold get. by rewrite set_stack, lookup_insert_ne. Qed.

(** *** Writing then reading *)

(** X1: right after [set(k, v, d)] the key is held, and [get(k)] is [v] if
    [v] is truthy, else [d] if [d] is truthy, else [undefined]. *)
Theorem set_then_get s k v dflt cb :
  has (set s k v dflt cb) k = true
  ∧ get (set s k v dflt cb) k
    = (if truthy v then v else if truthy dflt then dflt else VUndefined).
Proof.
  split; [|apply get_set].
  apply has_true. rewrite set_stack, lookup_insert_eq. eauto.
Qed.

(** X2: [set(k, ...)] leaves every other key alone: its record, what [get]
    and [has] give for it, and its listeners. *)
Theorem set_other_key s k k' v dflt cb :
  k ≠ k' →
  stack (set s k v dflt cb) !! k' = stack s !! k'
  ∧ get (set s k v dflt cb) k' = get s k'
  ∧ has (set s k v dflt cb) k' = has s k'
  ∧ listeners (set s k v dflt cb) k' = listeners s k'.
Proof.
  intros Hne.
  assert (stack (set s k v dflt cb) !! k' = stack s !! k') as Hst.
  { by rewrite set_stack, lookup_insert_ne. }
  split_and!; [done | by apply get_set_ne | | by apply set_listeners_ne].
  unfold has. by rewrite Hst.
Qed.

Lemma set_other_key_witness :
  KStr "theme" ≠ KStr "page"
  ∧ get (set (new [(KStr "page", mkParameter (VNum 1) VUndefined None)])
             (KStr "theme") (VStr "dark") VUndefined None) (KStr "page")
    = VNum 1.
Proof.
  assert (KStr "theme" ≠ KStr "page") as Hne by discriminate.
  split; [exact Hne|].
  rewrite (proj1 (proj2 (set_other_key
    (new [(KStr "page", mkParameter (VNum 1) VUndefined None)])
    (KStr "theme") (KStr "page") (VStr "dark") VUndefined None Hne))).
  vm_compute. reflexivity.
Defined.

(** X3: on a key that is held, [update(k, v)] is [set(k, v)] with nothing
    else given: the record becomes [{v, v, undefined}], whatever default it
    had before, [get(k)] is [v] if truthy and [undefined] if not, and each
    listener of [k] is called once with that. *)
Theorem update_present s k v :
  has s k = true →
  update s k v = set s k v VUndefined None
  ∧ stack (update s k v) !! k = Some (mkParameter v v None)
  ∧ get (update s k v) k = (if truthy v then v else VUndefined)
  ∧ fired s (update s k v)
    = (λ c, (c, if truthy v then v else VUndefined)) <$> listeners s k
  ∧ signal (update s k v) = signal s.
Proof.
  intros Hk. unfold update. rewrite Hk. split_and!.
  - done.
  - by rewrite set_stack, lookup_insert_eq.
  - by rewrite get_set.
  - by rewrite fired_set, set_listeners, get_set.
  - by rewrite set_signal.
Qed.

Lemma update_present_witness :
  has (set (new []) (KStr "page") (VNum 0) (VNum 5) None) (KStr "page") = true
  ∧ get (set (new []) (KStr "page") (VNum 0) (VNum 5) None) (KStr "page")
    = VNum 5
  ∧ get (update (set (new []) (KStr "page") (VNum 0) (VNum 5) None)
                (KStr "page") (VNum 0)) (KStr "page") = VUndefined.
Proof.
  assert (has (set (new []) (KStr "page") (VNum 0) (VNum 5) None)
              (KStr "page") = true) as Hk by (vm_compute; reflexivity).
  split; [exact Hk|]. split; [vm_compute; reflexivity|].
  exact (proj1 (proj2 (proj2 (update_present _ (KStr "page") (VNum 0) Hk)))).
Defined.

(** *** Removing *)

(** X4: after [remove(k)] the key is not held and reads [undefined]; every
    other key reads as before; no listener is called. *)
Theorem remove_then_get s k k' :
  has (remove s k) k = false
  ∧ get (remove s k) k = VUndefined
  ∧ get (remove s k) k' = (if decide (k = k') then VUndefined else get s k')
  ∧ has (remove s k) k' = (if decide (k = k') then false else has s k')
  ∧ fired s (remove s k) = [].
Proof.
  assert (∀ j, stack (remove s k) !! j
               = if decide (k = j) then None else stack s !! j) as Hst.
  { intros j. unfold remove. simpl. apply lookup_delete. }
  assert (has (remove s k) k = false) as Hh.
  { apply has_false. by rewrite Hst, decide_True. }
  assert (get (remove s k) k = VUndefined) as Hg.
  { unfold get. by rewrite Hst, decide_True. }
  split_and!; [done | done | | |].
  - case_decide as Hk; [by subst|]. unfold get. by rewrite Hst, decide_False.
  - case_decide as Hk; [by subst|]. unfold has. by rewrite Hst, decide_False.
  - unfold fired, remove. simpl. by rewrite drop_all.
Qed.

(** X5: [remove] of a key that is not held gives the instance back as it
    was; [remove(k)] after [set(k, ...)] of such a key puts [stack] back as
    it was, while a callback given to that [set] stays registered. *)
Theorem set_then_remove s k v dflt cb :
  has s k = false →
  remove s k = s
  ∧ stack (remove (set s k v dflt cb) k) = stack s
  ∧ (∀ c, cb = Some c → c ∈ listeners (remove (set s k v dflt cb) k) k).
Proof.
  intros Hk%has_false. split_and!.
  - unfold remove. rewrite delete_id by done. apply with_stack_id.
  - change (delete k (stack (set s k v dflt cb)) = stack s).
    rewrite set_stack. by apply delete_insert_id.
  - intros c ->. change (c ∈ listeners (set s k v dflt (Some c)) k).
    rewrite set_listeners. apply Set_add_elem. by left.
Qed.

Lemma set_then_remove_witness :
  has (new []) (KStr "page") = false
  ∧ remove (new []) (KStr "page") = new []
  ∧ stack (remove (set (new []) (KStr "page") (VNum 1) VUndefined
                       (Some (Callable 3))) (KStr "page")) = stack (new [])
  ∧ Callable 3 ∈ listeners (remove (set (new []) (KStr "page") (VNum 1)
                                        VUndefined (Some (Callable 3)))
                                   (KStr "page")) (KStr "page").
Proof.
  assert (has (new []) (KStr "page") = false) as H by (vm_compute; reflexivity).
  split; [exact H|].
  destruct (set_then_remove (new []) (KStr "page") (VNum 1) VUndefined
              (Some (Callable 3)) H) as (H0 & H1 & H2).
  split; [exact H0|]. split; [exact H1 | exact (H2 _ eq_refl)].
Defined.

(** X6: after [clear()] no key is held and [entries] is empty, so
    [update] writes nothing; no listener is called by it, and every listener
    stays registered. *)
Theorem clear_empties s k v :
  has (clear s) k = false
  ∧ get (clear s) k = VUndefined
  ∧ entries (clear s) = ∅
  ∧ update (clear s) k v = clear s
  ∧ fired s (clear s) = []
  ∧ listeners (clear s) k = listeners s k.
Proof.
  assert (has (clear s) k = false) as Hh.
  { apply has_false. unfold clear. simpl. apply lookup_empty. }
  split_and!; [done | | | | | done].
  - unfold get, clear. simpl. by rewrite lookup_empty.
  - unfold entries, clear. simpl. apply map_fold_empty.
  - unfold update. by rewrite Hh.
  - unfold fired, clear. simpl. by rewrite drop_all.
Qed.

(** *** Listening and dispatching *)

Lemma Set_add_present {A} `{EqDecision A} (x : A) (l : list A) :
  x ∈ l → Set_add x l = l.
Proof. intros Hx. unfold Set_add. by rewrite decide_True. Qed.

Lemma Set_add_absent {A} `{EqDecision A} (x : A) (l : list A) :
  x ∉ l → Set_add x l = l ++ [x].
Proof. intros Hx. unfold Set_add. by rewrite decide_False. Qed.

Lemma fired_dispatch s k :
  fired s (dispatch s k) = (λ c, (c, get s k)) <$> listeners s k.
Proof. unfold fired. rewrite dispatch_calls. apply drop_app_length. Qed.

(** X7: [listen] calls nobody and leaves the values alone; registering the
    same callback for the same key a second time changes nothing. *)
Theorem listen_idempotent s k c k' :
  listen (listen s k c) k c = listen s k c
  ∧ fired s (listen s k c) = []
  ∧ get (listen s k c) k' = get s k'
  ∧ c ∈ listeners (listen s k c) k.
Proof.
  split_and!.
  - unfold listen. simpl. rewrite lookup_insert_eq. simpl.
    rewrite (Set_add_present c (Set_add c _)) by (apply Set_add_elem; by left).
    by rewrite insert_insert_eq.
  - unfold fired, listen. simpl. by rewrite drop_all.
  - done.
  - rewrite listen_listeners, decide_True by done. apply Set_add_elem. by left.
Qed.

(** X8: a callback that was not yet listening to [k] is called last by the
    next dispatch for [k], after the listeners that were there, which are
    called as before. *)
Theorem listen_called_last s k c :
  c ∉ listeners s k →
  listeners (listen s k c) k = listeners s k ++ [c]
  ∧ fired (listen s k c) (dispatch (listen s k c) k)
    = fired s (dispatch s k) ++ [(c, get s k)].
Proof.
  intros Hc.
  assert (listeners (listen s k c) k = listeners s k ++ [c]) as Hl.
  { rewrite listen_listeners, decide_True by done. by apply Set_add_absent. }
  split; [done|].
  rewrite !fired_dispatch, Hl, fmap_app. reflexivity.
Qed.

Lemma listen_called_last_witness :
  (Callable 2 ∉ listeners (listen (set (new []) (KStr "theme") (VStr "dark")
                                       VUndefined None)
                                  (KStr "theme") (Callable 1)) (KStr "theme"))
  ∧ fired (listen (listen (set (new []) (KStr "theme") (VStr "dark")
                               VUndefined None)
                          (KStr "theme") (Callable 1))
                  (KStr "theme") (Callable 2))
          (dispatch (listen (listen (set (new []) (KStr "theme") (VStr "dark")
                                         VUndefined None)
                                    (KStr "theme") (Callable 1))
                            (KStr "theme") (Callable 2))
                    (KStr "theme"))
    = [(Callable 1, VStr "dark"); (Callable 2, VStr "dark")].
Proof.
  assert (Callable 2 ∉ listeners
            (listen (set (new []) (KStr "theme") (VStr "dark") VUndefined None)
                    (KStr "theme") (Callable 1)) (KStr "theme")) as Hc.
  { vm_compute. by intros [[=]|?%elem_of_nil]%elem_of_cons. }
  split; [exact Hc|].
  rewrite (proj2 (listen_called_last _ _ _ Hc)). vm_compute. reflexivity.
Defined.

(** X9: [dispatch(k)] calls the listeners registered for [k], each once, in
    registration order, with [get(k)] as it is then, and nobody else; it
    changes no value and no registration. *)
Theorem dispatch_calls_listeners s k k' :
  fired s (dispatch s k) = (λ c, (c, get s k)) <$> listeners s k
  ∧ calls (dispatch s k) = calls s ++ fired s (dispatch s k)
  ∧ stack (dispatch s k) = stack s
  ∧ listeners (dispatch s k) k' = listeners s k'
  ∧ get (dispatch s k) k' = get s k'.
Proof.
  split_and!; try done.
  - apply fired_dispatch.
  - rewrite fired_dispatch. apply dispatch_calls.
Qed.

(** X10: [dispatch] for a key nobody listens to gives the instance back as
    it was. *)
Theorem dispatch_no_listener s k : listeners s k = [] → dispatch s k = s.
Proof.
  intros Hl. pose proof (dispatch_calls s k) as Hc.
  rewrite Hl in Hc. simpl in Hc. rewrite app_nil_r in Hc.
  unfold dispatch in *. simpl in Hc. rewrite Hc. apply with_calls_id.
Qed.

Lemma dispatch_no_listener_witness :
  listeners (new [(KStr "page", mkParameter (VNum 1) VUndefined None)])
            (KStr "page") = []
  ∧ dispatch (new [(KStr "page", mkParameter (VNum 1) VUndefined None)])
             (KStr "page")
    = new [(KStr "page", mkParameter (VNum 1) VUndefined None)].
Proof.
  assert (listeners (new [(KStr "page", mkParameter (VNum 1) VUndefined None)])
                    (KStr "page") = []) as H by (vm_compute; reflexivity).
  split; [exact H | exact (dispatch_no_listener _ _ H)].
Defined.

(** X11: [dispatch] for a key that is not held (never written, or removed)
    still calls its listeners, with [undefined]. *)
Theorem dispatch_absent_key s k :
  has s k = false →
  fired s (dispatch s k) = (λ c, (c, VUndefined)) <$> listeners s k.
Proof.
  intros Hk%has_false. rewrite fired_dispatch. unfold get. by rewrite Hk.
Qed.

Lemma dispatch_absent_key_witness :
  has (remove (set (new []) (KStr "theme") (VStr "dark") VUndefined
                   (Some (Callable 1))) (KStr "theme")) (KStr "theme") = false
  ∧ fired (remove (set (new []) (KStr "theme") (VStr "dark") VUndefined
                       (Some (Callable 1))) (KStr "theme"))
          (dispatch (remove (set (new []) (KStr "theme") (VStr "dark")
                                 VUndefined (Some (Callable 1)))
                            (KStr "theme")) (KStr "theme"))
    = [(Callable 1, VUndefined)].
Proof.
  assert (has (remove (set (new []) (KStr "theme") (VStr "dark") VUndefined
                           (Some (Callable 1))) (KStr "theme"))
              (KStr "theme") = false) as H by (vm_compute; reflexivity).
  split; [exact H|].
  rewrite (dispatch_absent_key _ _ H). vm_compute. reflexivity.
Defined.

(** *** Construction *)

Lemma Object_entries_elem {A} (o : list (Key * A)) (name : string) (x : A) :
  (name, x) ∈ Object_entries o ↔ (KStr name, x) ∈ o.
Proof.
  unfold Object_entries. rewrite list_elem_of_omap. split.
  - intros ([[name'|y] x'] & Hin & Heq); simpl in Heq; [|done].
    by injection Heq as -> ->.
  - intros Hin. by exists (KStr name, x).
Qed.

Lemma Object_entries_NoDup {A} (o : list (Key * A)) :
  NoDup o.*1 → NoDup (Object_entries o).*1.
Proof.
  induction o as [|[[name|y] x] o IH]; simpl; [intros _; constructor | |].
  - intros [Hnotin Hnd]%NoDup_cons. apply NoDup_cons. split; [|by apply IH].
    intros ([name' x'] & -> & Hin%Object_entries_elem)%list_elem_of_fmap.
    apply Hnotin. apply list_elem_of_fmap. by exists (KStr name', x').
  - intros [_ Hnd]%NoDup_cons. by apply IH.
Qed.

Lemma seeded_cons m name data l :
  seeded m ((name, data) :: l)
  = seeded (<[KStr name := mkParameter (value data)
                (js_or (defaultValue data) (value data)) (callback data)]> m) l.
Proof. reflexivity. Qed.

Lemma seeded_lookup_notin m l name :
  name ∉ l.*1 → seeded m l !! KStr name = m !! KStr name.
Proof.
  revert m. induction l as [|[name' data] l IH]; intros m; [done|].
  intros [Hne Hnotin]%not_elem_of_cons.
  rewrite seeded_cons, IH by done.
  rewrite lookup_insert_ne; [done | simpl in Hne; congruence].
Qed.

Lemma seeded_lookup m l name data :
  NoDup l.*1 → (name, data) ∈ l →
  seeded m l !! KStr name
  = Some (mkParameter (value data) (js_or (defaultValue data) (value data))
                      (callback data)).
Proof.
  revert m. induction l as [|[name' data'] l IH]; intros m;
    [by intros _ ?%elem_of_nil|].
  intros [Hnotin Hnd]%NoDup_cons [[= -> ->]|Hin]%elem_of_cons;
    rewrite seeded_cons.
  - rewrite seeded_lookup_notin by done. apply lookup_insert_eq.
  - by apply IH.
Qed.

Lemma seeded_is_Some m l k :
  is_Some (seeded m l !! k)
  ↔ is_Some (m !! k) ∨ ∃ name data, k = KStr name ∧ (name, data) ∈ l.
Proof.
  revert m. induction l as [|[name' data'] l IH]; intros m.
  - simpl. split; [by left|]. intros [?|(? & ? & _ & ?%elem_of_nil)]; done.
  - rewrite seeded_cons, IH. split.
    + intros [Hm|(name & data & -> & Hin)].
      * destruct (decide (KStr name' = k)) as [<-|Hne].
        -- right. exists name', data'. split; [done|]. apply list_elem_of_here.
        -- left. by rewrite lookup_insert_ne in Hm.
      * right. exists name, data. split; [done|]. by apply list_elem_of_further.
    + intros [Hm|(name & data & -> & [[= -> ->]|Hin]%elem_of_cons)].
      * left. destruct (decide (KStr name' = k)) as [<-|Hne].
        -- rewrite lookup_insert_eq. eauto.
        -- by rewrite lookup_insert_ne.
      * left. rewrite lookup_insert_eq. eauto.
      * right. by exists name, data.
Qed.

(** X12: of a definition whose keys are all different, construction stores
    for each string key the record of the definition, with the default
    filled in from the value when it is not truthy; [get] then gives the
    value if truthy, else the declared default if truthy, else
    [undefined]. *)
Theorem new_lookup init name data :
  NoDup init.*1 →
  (KStr name, data) ∈ init →
  stack (new init) !! KStr name
  = Some (mkParameter (value data) (js_or (defaultValue data) (value data))
                      (callback data))
  ∧ get (new init) (KStr name) = resolved data.
Proof.
  intros Hnd Hin.
  assert (stack (new init) !! KStr name
          = Some (mkParameter (value data)
                    (js_or (defaultValue data) (value data)) (callback data)))
    as Hst.
  { rewrite new_stack. apply seeded_lookup.
    - by apply Object_entries_NoDup.
    - by apply Object_entries_elem. }
  split; [done|]. unfold get, resolved. rewrite Hst. simpl. unfold js_or.
  destruct (truthy (value data)) eqn:Hv; [by rewrite Hv|].
  destruct (truthy (defaultValue data)) eqn:Hd; [by rewrite Hd|].
  by rewrite Hv.
Qed.

Lemma new_lookup_witness :
  NoDup [(KStr "theme", mkParameter (VStr "") (VStr "light") None);
         (KStr "page", mkParameter (VNum 1) VUndefined None)].*1
  ∧ (KStr "theme", mkParameter (VStr "") (VStr "light") None)
      ∈ [(KStr "theme", mkParameter (VStr "") (VStr "light") None);
         (KStr "page", mkParameter (VNum 1) VUndefined None)]
  ∧ get (new [(KStr "theme", mkParameter (VStr "") (VStr "light") None);
              (KStr "page", mkParameter (VNum 1) VUndefined None)])
        (KStr "theme") = VStr "light".
Proof.
  assert (NoDup [(KStr "theme", mkParameter (VStr "") (VStr "light") None);
                 (KStr "page", mkParameter (VNum 1) VUndefined None)].*1)
    as Hnd.
  { simpl. apply NoDup_cons. split; [|apply NoDup_singleton].
    by intros [=]%list_elem_of_singleton. }
  assert ((KStr "theme", mkParameter (VStr "") (VStr "light") None)
            ∈ [(KStr "theme", mkParameter (VStr "") (VStr "light") None);
               (KStr "page", mkParameter (VNum 1) VUndefined None)]) as Hin
    by apply list_elem_of_here.
  split; [exact Hnd|]. split; [exact Hin|].
  exact (proj2 (new_lookup _ _ _ Hnd Hin)).
Defined.

(** X13: the keys a new instance holds are the string keys of its
    definition, no more and no less. *)
Theorem new_has_iff init k :
  has (new init) k = true ↔ ∃ name data, k = KStr name ∧ (KStr name, data) ∈ init.
Proof.
  rewrite has_true, new_stack, seeded_is_Some. split.
  - intros [[? Hm]|(name & data & -> & Hin%Object_entries_elem)].
    + by rewrite lookup_empty in Hm.
    + by exists name, data.
  - intros (name & data & -> & Hin). right. exists name, data.
    split; [done|]. by apply Object_entries_elem.
Qed.

Lemma replay_calls_mono s l (i : Invocation) :
  i ∈ calls s → i ∈ calls (replay s l).
Proof.
  revert s. induction l as [|kd l IH]; intros s Hi; [done|].
  simpl. apply IH. rewrite set_calls. apply elem_of_app. by left.
Qed.

Lemma replay_registers_and_fires s l name data c :
  (name, data) ∈ l → callback data = Some c →
  c ∈ listeners (replay s l) (KStr name)
  ∧ (c, resolved data) ∈ calls (replay s l).
Proof.
  revert s. induction l as [|kd l IH]; intros s; [by intros ?%elem_of_nil|].
  intros [<-|Hin]%elem_of_cons Hcb; simpl; [|by apply IH].
  rewrite Hcb.
  assert (c ∈ listeners (set s (KStr name) (value data) (defaultValue data)
                             (Some c)) (KStr name)) as Hc.
  { rewrite set_listeners. apply Set_add_elem. by left. }
  split; [by apply replay_listeners_mono|].
  apply replay_calls_mono. rewrite set_calls. apply elem_of_app. right.
  apply list_elem_of_fmap. exists c. split; [|done].
  by rewrite get_set.
Qed.

(** X14: a callback declared under a string key of the definition is a
    listener of that key once the instance is constructed, and construction
    has called it with the value its record resolves to. *)
Theorem new_fires_declared_callback init name data c :
  (KStr name, data) ∈ init →
  callback data = Some c →
  c ∈ listeners (new init) (KStr name)
  ∧ (c, resolved data) ∈ calls (new init).
Proof.
  intros Hin Hcb. unfold new, initialize.
  apply replay_registers_and_fires; [|done].
  by apply Object_entries_elem.
Qed.

Lemma new_fires_declared_callback_witness :
  (KStr "page", mkParameter (VNum 0) (VNum 1) (Some (Callable 7)))
    ∈ [(KStr "page", mkParameter (VNum 0) (VNum 1) (Some (Callable 7)))]
  ∧ callback (mkParameter (VNum 0) (VNum 1) (Some (Callable 7)))
    = Some (Callable 7)
  ∧ (Callable 7, VNum 1)
      ∈ calls (new [(KStr "page",
                     mkParameter (VNum 0) (VNum 1) (Some (Callable 7)))]).
Proof.
  assert ((KStr "page", mkParameter (VNum 0) (VNum 1) (Some (Callable 7)))
            ∈ [(KStr "page", mkParameter (VNum 0) (VNum 1) (Some (Callable 7)))])
    as Hin by apply list_elem_of_here.
  split; [exact Hin|]. split; [reflexivity|].
  exact (proj2 (new_fires_declared_callback _ _ _ _ Hin eq_refl)).
Defined.

(** *** Resetting and cloning *)

Lemma listeners_signal s s' k :
  signal s = signal s' → listeners s k = listeners s' k.
Proof. unfold listeners. by intros ->. Qed.

Lemma set_signal_present s name v dflt cb :
  (∀ c, cb = Some c → c ∈ listeners s (KStr name)) →
  signal (set s (KStr name) v dflt cb) = signal s.
Proof.
  intros Hcb. rewrite set_signal. destruct cb as [c|]; [|done].
  specialize (Hcb c eq_refl). rewrite Set_add_present by done.
  apply insert_id. unfold listeners in *.
  destruct (signal s !! KStr name); [done | by apply elem_of_nil in Hcb].
Qed.

Lemma replay_signal_present s l :
  (∀ name data c, (name, data) ∈ l → callback data = Some c →
                  c ∈ listeners s (KStr name)) →
  signal (replay s l) = signal s.
Proof.
  revert s. induction l as [|[name data] l IH]; intros s Hl; [done|].
  assert (signal (set s (KStr name) (value data) (defaultValue data)
                      (callback data)) = signal s) as Hs.
  { apply set_signal_present. intros c Hc.
    apply (Hl name data c); [apply list_elem_of_here | done]. }
  change (signal (replay (set s (KStr name) (value data) (defaultValue data)
                              (callback data)) l) = signal s).
  rewrite IH; [done|].
  intros name' data' c Hin Hc. rewrite (listeners_signal _ s) by done.
  apply (Hl name' data' c); [by apply list_elem_of_further | done].
Qed.

(** X15: on an instance built by the constructor and changed through the
    public operations, [reset()] registers nothing new: the callbacks the
    definition declares are listeners already, and a [Set] takes each only
    once. *)
Theorem reset_registers_nothing_new init ops k :
  signal (reset (run (new init) ops)) = signal (run (new init) ops)
  ∧ listeners (reset (run (new init) ops)) k = listeners (run (new init) ops) k.
Proof.
  assert (signal (reset (run (new init) ops)) = signal (run (new init) ops))
    as Hs.
  { unfold reset, initialize.
    rewrite replay_signal_present; [done|].
    intros name data c Hin Hc.
    change (c ∈ listeners (run (new init) ops) (KStr name)).
    apply run_listeners_mono. unfold new, initialize.
    apply (replay_registers_and_fires _ _ name data c); [|done].
    change (initial (clear (run (new init) ops)))
      with (initial (run (new init) ops)) in Hin.
    by rewrite run_initial, new_initial in Hin. }
  split; [done | by apply listeners_signal].
Qed.

(** X16: [cloneOriginal()] of an instance, whatever was done to it, is the
    instance its constructor built from the definition: later writes,
    removals and listeners are not carried over. *)
Theorem cloneOriginal_fresh init ops :
  cloneOriginal (run (new init) ops) = new init.
Proof. unfold cloneOriginal. by rewrite run_initial, new_initial. Qed.

(** *** The default is never emptier than the value *)

Lemma seeded_stack_wf m l :
  map_Forall (λ _ data, truthy (defaultValue data) = true
                        ∨ defaultValue data = value data) m →
  map_Forall (λ _ data, truthy (defaultValue data) = true
                        ∨ defaultValue data = value data) (seeded m l).
Proof.
  revert m. induction l as [|[name data] l IH]; intros m Hm; [done|].
  rewrite seeded_cons. apply IH. apply map_Forall_insert_2; [|done].
  simpl. unfold js_or. destruct (truthy (defaultValue data)) eqn:Hd; auto.
Qed.

Lemma set_stack_wf s k v dflt cb : stack_wf s → stack_wf (set s k v dflt cb).
Proof.
  intros Hwf. unfold stack_wf. rewrite set_stack.
  apply map_Forall_insert_2; [|done].
  simpl. unfold js_or. destruct (truthy dflt) eqn:Hd; auto.
Qed.

Lemma step_stack_wf s op : stack_wf s → stack_wf (step s op).
Proof.
  intros Hwf. destruct op as [key v dflt cb|key v|key| | |key c|key]; simpl.
  - by apply set_stack_wf.
  - unfold update. destruct (has s key); [by apply set_stack_wf | done].
  - unfold stack_wf, remove. simpl. by apply map_Forall_delete.
  - unfold stack_wf, clear. simpl. apply map_Forall_empty.
  - unfold stack_wf. rewrite reset_stack. apply seeded_stack_wf, map_Forall_empty.
  - done.
  - done.
Qed.

Lemma run_stack_wf s ops : stack_wf s → stack_wf (run s ops).
Proof.
  revert s. induction ops as [|op ops IH]; intros s Hwf; [done|].
  simpl. apply IH. by apply step_stack_wf.
Qed.

Lemma reachable_stack_wf s : reachable s → stack_wf s.
Proof.
  intros (init & ops & ->). apply run_stack_wf.
  unfold stack_wf. rewrite new_stack. apply seeded_stack_wf, map_Forall_empty.
Qed.

(** X17: in every state an instance can be in, a record's [defaultValue] is
    truthy or is the record's [value]; so [get(k)] of a held key is
    [undefined] exactly when the stored default is falsy. *)
Theorem default_covers_value s k data :
  reachable s →
  stack s !! k = Some data →
  (truthy (defaultValue data) = true ∨ defaultValue data = value data)
  ∧ (get s k = VUndefined ↔ truthy (defaultValue data) = false).
Proof.
  intros Hs Hk. pose proof (reachable_stack_wf s Hs k data Hk) as Hwf.
  split; [done|]. unfold get. rewrite Hk. unfold js_or.
  destruct (truthy (value data)) eqn:Hv.
  - rewrite Hv. destruct Hwf as [Hd|Hd].
    + rewrite Hd. split; [|done]. intros Heq. by rewrite Heq in Hv.
    + rewrite Hd, Hv. split; [|done]. intros Heq. by rewrite Heq in Hv.
  - destruct (truthy (defaultValue data)) eqn:Hd; rewrite ?Hd; [|done].
    split; [|done]. intros Heq. by rewrite Heq in Hd.
Qed.

Lemma default_covers_value_witness :
  reachable (set (new []) (KStr "page") (VNum 0) VUndefined None)
  ∧ stack (set (new []) (KStr "page") (VNum 0) VUndefined None) !! KStr "page"
    = Some (mkParameter (VNum 0) (VNum 0) None)
  ∧ (get (set (new []) (KStr "page") (VNum 0) VUndefined None) (KStr "page")
     = VUndefined ↔ truthy (VNum 0) = false).
Proof.
  assert (reachable (set (new []) (KStr "page") (VNum 0) VUndefined None))
    as Hs.
  { by exists [], [OSet (KStr "page") (VNum 0) VUndefined None]. }
  assert (stack (set (new []) (KStr "page") (VNum 0) VUndefined None)
            !! KStr "page" = Some (mkParameter (VNum 0) (VNum 0) None)) as Hk
    by (vm_compute; reflexivity).
  split; [exact Hs|]. split; [exact Hk|].
  exact (proj2 (default_covers_value _ _ _ Hs Hk)).
Defined.

(** *** What [reset] tells the listeners *)

Lemma fired_calls s s' :
  calls s `prefix_of` calls s' → calls s' = calls s ++ fired s s'.
Proof.
  intros [extra Hextra]. unfold fired. rewrite Hextra.
  by rewrite drop_app_length.
Qed.

Lemma fired_trans s s' s'' :
  calls s `prefix_of` calls s' → calls s' `prefix_of` calls s'' →
  fired s s'' = fired s s' ++ fired s' s''.
Proof.
  intros H1 H2. apply fired_calls in H1, H2.
  unfold fired at 1. rewrite H2, H1, <- app_assoc.
  by rewrite drop_app_length.
Qed.

Lemma set_calls_prefix s k v dflt cb :
  calls s `prefix_of` calls (set s k v dflt cb).
Proof. rewrite set_calls. by eexists. Qed.

Lemma replay_calls_prefix s l : calls s `prefix_of` calls (replay s l).
Proof.
  revert s. induction l as [|kd l IH]; intros s; [done|].
  simpl. etrans; [apply set_calls_prefix | apply IH].
Qed.

Lemma replay_fires_listener s l name data c :
  (name, data) ∈ l → c ∈ listeners s (KStr name) →
  (c, resolved data) ∈ fired s (replay s l).
Proof.
  revert s. induction l as [|[name' data'] l IH]; intros s;
    [by intros ?%elem_of_nil|].
  intros Hin Hc.
  change (replay s ((name', data') :: l))
    with (replay (set s (KStr name') (value data') (defaultValue data')
                      (callback data')) l).
  rewrite (fired_trans s (set s (KStr name') (value data')
                              (defaultValue data') (callback data')));
    [| apply set_calls_prefix | apply replay_calls_prefix].
  apply elem_of_app. apply elem_of_cons in Hin as [[= <- <-]|Hin].
  - left. rewrite fired_set. apply list_elem_of_fmap. exists c.
    split; [by rewrite get_set | by apply set_listeners_mono].
  - right. apply IH; [done | by apply set_listeners_mono].
Qed.

(** X18: [reset()] tells the listeners: for every string key of the
    definition, each listener of that key is called with the value the
    definition's record resolves to. *)
Theorem reset_notifies s name data c :
  (KStr name, data) ∈ initial s →
  c ∈ listeners s (KStr name) →
  (c, resolved data) ∈ fired s (reset s).
Proof.
  intros Hin Hc.
  change (fired s (reset s))
    with (fired (clear s) (replay (clear s) (Object_entries (initial s)))).
  apply (replay_fires_listener _ _ name data c);
    [by apply Object_entries_elem | done].
Qed.

Lemma reset_notifies_witness :
  (KStr "page", mkParameter (VNum 1) VUndefined None)
    ∈ initial (listen (update (new [(KStr "page",
                                     mkParameter (VNum 1) VUndefined None)])
                              (KStr "page") (VNum 9))
                      (KStr "page") (Callable 4))
  ∧ Callable 4
      ∈ listeners (listen (update (new [(KStr "page",
                                         mkParameter (VNum 1) VUndefined None)])
                                  (KStr "page") (VNum 9))
                          (KStr "page") (Callable 4)) (KStr "page")
  ∧ (Callable 4, VNum 1)
      ∈ fired (listen (update (new [(KStr "page",
                                     mkParameter (VNum 1) VUndefined None)])
                              (KStr "page") (VNum 9))
                      (KStr "page") (Callable 4))
              (reset (listen (update
                                (new [(KStr "page",
                                       mkParameter (VNum 1) VUndefined None)])
                                (KStr "page") (VNum 9))
                             (KStr "page") (Callable 4))).
Proof.
  assert ((KStr "page", mkParameter (VNum 1) VUndefined None)
            ∈ initial (listen (update (new [(KStr "page",
                                 mkParameter (VNum 1) VUndefined None)])
                               (KStr "page") (VNum 9))
                         (KStr "page") (Callable 4))) as Hin.
  { vm_compute. apply list_elem_of_here. }
  assert (Callable 4
            ∈ listeners (listen (update (new [(KStr "page",
                                   mkParameter (VNum 1) VUndefined None)])
                                 (KStr "page") (VNum 9))
                           (KStr "page") (Callable 4)) (KStr "page")) as Hc.
  { vm_compute. apply list_elem_of_here. }
  split; [exact Hin|]. split; [exact Hc|].
  exact (reset_notifies _ _ _ _ Hin Hc).
Defined.

(** *** The plain mapping after a write *)

(** X19: [entries] shows under [k] the value last written to [k], truthy or
    not and whatever the default, and has no [k] once it is removed, for
    every key but the string ["__proto__"]; under that one [entries] has
    nothing, also when the store holds it. *)
Theorem entries_after_set s k v dflt cb :
  k ≠ KStr "__proto__" →
  entries (set s k v dflt cb) !! k = Some v
  ∧ entries (remove (set s k v dflt cb) k) !! k = None
  ∧ has (set s (KStr "__proto__") v dflt cb) (KStr "__proto__") = true
  ∧ entries (set s (KStr "__proto__") v dflt cb) !! KStr "__proto__" = None.
Proof.
  intros Hk. rewrite !entries_lookup by done. split_and!.
  - by rewrite set_stack, lookup_insert_eq.
  - unfold remove. simpl. by rewrite lookup_delete_eq.
  - apply has_true. rewrite set_stack, lookup_insert_eq. eauto.
  - apply entries_proto.
Qed.

Lemma entries_after_set_witness :
  KStr "page" ≠ KStr "__proto__"
  ∧ entries (set (new []) (KStr "page") (VNum 0) (VNum 5) None) !! KStr "page"
    = Some (VNum 0)
  ∧ entries (remove (set (new []) (KStr "page") (VNum 0) (VNum 5) None)
                    (KStr "page")) !! KStr "page" = None.
Proof.
  assert (KStr "page" ≠ KStr "__proto__") as Hk by discriminate.
  split; [exact Hk|].
  destruct (entries_after_set (new []) (KStr "page") (VNum 0) (VNum 5) None Hk)
    as (H1 & H2 & _).
  split; [exact H1 | exact H2].
Defined.

End DynamicMore.

(** ** Properties of the value set *)

Section StaticFacts.
Import Static.

Implicit Types (s : StaticParameter) (v : Value).

(** What the getter computes, [|| undefined] included: the first member in
    insertion order if it is truthy, [undefined] for an empty set and for a
    falsy first member. *)
Lemma value_first_truthy s :
  value s = match stack s with
            | [] => VUndefined
            | v :: _ => if truthy v then v else VUndefined
            end
  ∧ (value s = VUndefined
     ↔ stack s = [] ∨ ∃ v rest, stack s = v :: rest ∧ truthy v = false).
Proof.
  unfold value, entries, js_or. destruct (stack s) as [|v rest]; simpl.
  - split; [done|]. split; [by left | done].
  - destruct (truthy v) eqn:Hv.
    + split; [done|]. split.
      * intros ->. discriminate Hv.
      * intros [?|(v' & rest' & [= <- <-] & Hv')]; [done | congruence].
    + split; [done|]. split; [|done]. intros _. right. by exists v, rest.
Qed.

(** C8: [value] is to give the first member in insertion order whenever the
    set is not empty (the documentation of the getter: the current value if
    set, otherwise [undefined]).  The code misses that for a falsy first
    member: the set built from [[0, 1]] is not empty, its first member is
    [0], and [value] is [undefined], not [0]. *)
Lemma value_masks_falsy_first :
  stack (new [VNum 0; VNum 1]) = [VNum 0; VNum 1]
  ∧ value (new [VNum 0; VNum 1]) = VUndefined
  ∧ value (new [VNum 0; VNum 1]) ≠ VNum 0.
Proof. split_and!; [by vm_compute ..| vm_compute; discriminate]. Qed.

End StaticFacts.

(** ** Further properties of the value set *)

Section StaticMore.
Import Static.

Implicit Types (s : StaticParameter) (v w : Value) (l : list Value).

Lemma static_has_true s v : has s v = true ↔ v ∈ stack s.
Proof. unfold has. apply bool_decide_eq_true. Qed.

Lemma static_has_false s v : has s v = false ↔ v ∉ stack s.
Proof. unfold has. apply bool_decide_eq_false. Qed.

Lemma static_eta s : mkStatic (initial s) (stack s) = s.
Proof. by destruct s. Qed.

(** The loop of [initialize]: [add] after [add], on [stack] alone. *)
Lemma foldl_add s l :
  foldl add s l
  = mkStatic (initial s) (foldl (λ acc v, Set_add v acc) (stack s) l).
Proof.
  revert s. induction l as [|v l IH]; intros s; simpl.
  - by rewrite static_eta.
  - by rewrite IH.
Qed.

Lemma new_stack_foldl init :
  stack (new init) = foldl (λ acc v, Set_add v acc) [] init.
Proof. unfold new, initialize. by rewrite foldl_add. Qed.

Lemma foldl_Set_add_elem l acc v :
  v ∈ foldl (λ acc v, Set_add v acc) acc l ↔ v ∈ acc ∨ v ∈ l.
Proof.
  revert acc. induction l as [|w l IH]; intros acc; simpl.
  - rewrite elem_of_nil. tauto.
  - rewrite IH, Set_add_elem, elem_of_cons. tauto.
Qed.

Lemma foldl_Set_add_NoDup l acc :
  NoDup acc → NoDup (foldl (λ acc v, Set_add v acc) acc l).
Proof.
  revert acc. induction l as [|w l IH]; intros acc Hacc; simpl; [done|].
  by apply IH, Set_add_NoDup.
Qed.

(** The members come out in the order of their first occurrence. *)
Lemma foldl_Set_add_first_occurrences l :
  foldl (λ acc v, Set_add v acc) [] l = reverse (remove_dups (reverse l)).
Proof.
  induction l as [|v l IH] using rev_ind; [done|].
  rewrite foldl_snoc, reverse_snoc, IH. simpl.
  destruct (decide_rel elem_of v (reverse l)) as [Hin|Hnotin].
  - apply Set_add_present.
    by rewrite elem_of_reverse, elem_of_remove_dups.
  - rewrite reverse_cons. apply Set_add_absent.
    by rewrite elem_of_reverse, elem_of_remove_dups.
Qed.

Lemma foldl_Set_add_fresh l acc :
  NoDup (acc ++ l) → foldl (λ acc v, Set_add v acc) acc l = acc ++ l.
Proof.
  revert acc. induction l as [|v l IH]; intros acc Hnd; simpl.
  - by rewrite app_nil_r.
  - rewrite (Set_add_absent v acc).
    + rewrite IH; [by rewrite <- app_assoc | by rewrite <- app_assoc].
    + apply NoDup_app in Hnd as (_ & Hdisj & _).
      intros Hv. apply (Hdisj v Hv). apply list_elem_of_here.
Qed.

Lemma static_run_initial s ops : initial (run s ops) = initial s.
Proof.
  revert s. induction ops as [|op ops IH]; intros s; [done|].
  simpl. unfold run in IH. rewrite IH. destruct op; simpl; try done.
  unfold reset, initialize. by rewrite foldl_add.
Qed.

Lemma static_new_initial init : initial (new init) = init.
Proof. unfold new, initialize. by rewrite foldl_add. Qed.

Lemma static_step_NoDup s op : NoDup (stack s) → NoDup (stack (step s op)).
Proof.
  intros Hs. destruct op as [v|key| |]; simpl.
  - by apply Set_add_NoDup.
  - by apply NoDup_filter.
  - constructor.
  - unfold reset, initialize. rewrite foldl_add. simpl.
    apply foldl_Set_add_NoDup. constructor.
Qed.

(** *** Construction *)

(** X20: a new value set holds the members of the initial sequence, each
    once, in the order of their first occurrence. *)
Theorem static_new_entries init :
  entries (new init) = reverse (remove_dups (reverse init))
  ∧ NoDup (entries (new init))
  ∧ (∀ v, has (new init) v = true ↔ v ∈ init).
Proof.
  unfold entries. rewrite new_stack_foldl. split_and!.
  - apply foldl_Set_add_first_occurrences.
  - apply foldl_Set_add_NoDup. constructor.
  - intros v. rewrite static_has_true, new_stack_foldl, foldl_Set_add_elem.
    rewrite elem_of_nil. tauto.
Qed.

(** X21: built from a sequence without repetition, a value set gives that
    very sequence back as its [entries]. *)
Theorem static_new_entries_NoDup init :
  NoDup init → entries (new init) = init.
Proof.
  intros Hnd. unfold entries. rewrite new_stack_foldl.
  by rewrite foldl_Set_add_fresh.
Qed.

Lemma static_new_entries_NoDup_witness :
  NoDup [VStr "a11y"; VStr "beta"]
  ∧ entries (new [VStr "a11y"; VStr "beta"]) = [VStr "a11y"; VStr "beta"].
Proof.
  assert (NoDup [VStr "a11y"; VStr "beta"]) as Hnd.
  { apply NoDup_cons. split; [|apply NoDup_singleton].
    by intros [=]%list_elem_of_singleton. }
  split; [exact Hnd | exact (static_new_entries_NoDup _ Hnd)].
Defined.

(** X22: [value] of a new value set is the first element of the initial
    sequence when that is truthy, and [undefined] when the sequence is empty
    or starts with a falsy element. *)
Theorem static_new_value init :
  value (new init) = match init with
                     | [] => VUndefined
                     | v :: _ => if truthy v then v else VUndefined
                     end.
Proof.
  unfold value, entries. rewrite new_stack_foldl.
  destruct init as [|v init]; [done|].
  assert (∀ l acc, foldl (λ acc v, Set_add v acc) acc l !! 0%nat
                   = (acc ++ l) !! 0%nat) as Hhead.
  { induction l as [|w l IH]; intros acc; simpl; [by rewrite app_nil_r|].
    rewrite IH. unfold Set_add. case_decide as Hw; destruct acc; simpl;
      try done. by apply elem_of_nil in Hw. }
  by rewrite Hhead.
Qed.

(** *** The members are never repeated *)

(** X23: whatever is added to, removed from, cleared from or reset in a
    value set, no member occurs twice in its [entries]. *)
Theorem static_entries_NoDup init ops :
  NoDup (entries (run (new init) ops)).
Proof.
  unfold entries.
  assert (∀ s, NoDup (stack s) → NoDup (stack (run s ops))) as Hrun.
  { induction ops as [|op ops IH]; intros s Hs; [done|].
    simpl. apply IH. by apply static_step_NoDup. }
  apply Hrun. rewrite new_stack_foldl. apply foldl_Set_add_NoDup. constructor.
Qed.

(** *** Adding and removing *)

(** X24: after [add(v)] the set holds [v] and what it held before, nothing
    else; adding [v] once more changes nothing. *)
Theorem static_add_member s v w :
  has (add s v) v = true
  ∧ (has (add s v) w = true ↔ w = v ∨ has s w = true)
  ∧ add (add s v) v = add s v.
Proof.
  split_and!.
  - apply static_has_true. simpl. apply Set_add_elem. by left.
  - rewrite !static_has_true. simpl. apply Set_add_elem.
  - unfold add. simpl. f_equal. apply Set_add_present, Set_add_elem. by left.
Qed.

(** X25: [add] of a member the set already holds gives the set back as it
    was, the member keeping its place. *)
Theorem static_add_present s v : has s v = true → add s v = s.
Proof.
  intros Hv%static_has_true. unfold add.
  rewrite Set_add_present by done. apply static_eta.
Qed.

Lemma static_add_present_witness :
  has (new [VStr "a"; VStr "b"]) (VStr "a") = true
  ∧ add (new [VStr "a"; VStr "b"]) (VStr "a") = new [VStr "a"; VStr "b"].
Proof.
  assert (has (new [VStr "a"; VStr "b"]) (VStr "a") = true) as H
    by (vm_compute; reflexivity).
  split; [exact H | exact (static_add_present _ _ H)].
Defined.

Lemma filter_ne_absent l v : v ∉ l → filter (λ w, w ≠ v) l = l.
Proof.
  induction l as [|w l IH]; [done|].
  intros [Hne Hl]%not_elem_of_cons.
  rewrite filter_cons_True by done. f_equal. by apply IH.
Qed.

(** X26: [remove] of a value the set does not hold gives the set back as it
    was; such a value goes last when added, and [remove] of it right after
    gives the set back as it was. *)
Theorem static_add_then_remove s v :
  has s v = false →
  remove s v = s
  ∧ entries (add s v) = entries s ++ [v]
  ∧ remove (add s v) v = s.
Proof.
  intros Hv%static_has_false.
  assert (stack (add s v) = stack s ++ [v]) as Hst.
  { simpl. by apply Set_add_absent. }
  split_and!; [| done |].
  - unfold remove. rewrite filter_ne_absent by done. apply static_eta.
  - unfold remove. rewrite Hst, filter_app.
    rewrite (filter_cons_False _ v []) by (intros H; by apply H).
    rewrite filter_nil, app_nil_r, filter_ne_absent by done.
    exact (static_eta s).
Qed.

Lemma static_add_then_remove_witness :
  has (new [VStr "a"]) (VStr "c") = false
  ∧ remove (new [VStr "a"]) (VStr "c") = new [VStr "a"]
  ∧ entries (add (new [VStr "a"]) (VStr "c")) = [VStr "a"; VStr "c"]
  ∧ remove (add (new [VStr "a"]) (VStr "c")) (VStr "c") = new [VStr "a"].
Proof.
  assert (has (new [VStr "a"]) (VStr "c") = false) as H
    by (vm_compute; reflexivity).
  split; [exact H | exact (static_add_then_remove _ _ H)].
Defined.

(** X27: after [remove(v)] the set does not hold [v]; the other members are
    held as before and keep their order. *)
Theorem static_remove_member s v w :
  has (remove s v) v = false
  ∧ (has (remove s v) w = true ↔ w ≠ v ∧ has s w = true)
  ∧ entries (remove s v) `sublist_of` entries s.
Proof.
  split_and!.
  - apply static_has_false. simpl. rewrite list_elem_of_filter. tauto.
  - rewrite !static_has_true. simpl. by rewrite list_elem_of_filter.
  - apply sublist_filter.
Qed.

(** X28: [add] to a set that is not empty leaves [value] as it is. *)
Theorem static_add_keeps_value s v :
  entries s ≠ [] → value (add s v) = value s.
Proof.
  unfold value, entries. simpl. intros Hne. unfold Set_add.
  case_decide; [done|]. by destruct (stack s).
Qed.

Lemma static_add_keeps_value_witness :
  entries (new [VStr "a"]) ≠ []
  ∧ value (add (new [VStr "a"]) (VStr "b")) = value (new [VStr "a"]).
Proof.
  assert (entries (new [VStr "a"]) ≠ []) as H by (vm_compute; discriminate).
  split; [exact H | exact (static_add_keeps_value _ _ H)].
Defined.

(** *** Resetting and cloning *)

(** X29: whatever was added to or removed from a value set, [reset()] makes
    it the set its constructor built, and [clone()] gives that set too. *)
Theorem static_reset_clone_fresh init ops :
  reset (run (new init) ops) = new init
  ∧ clone (run (new init) ops) = new init
  ∧ entries (reset (run (new init) ops)) = reverse (remove_dups (reverse init)).
Proof.
  assert (reset (run (new init) ops) = new init) as Hr.
  { change (new (initial (run (new init) ops)) = new init).
    by rewrite static_run_initial, static_new_initial. }
  split_and!; [done | |].
  - unfold clone. by rewrite static_run_initial, static_new_initial.
  - rewrite Hr. unfold entries. rewrite new_stack_foldl.
    apply foldl_Set_add_first_occurrences.
Qed.

End StaticMore.
